(** * Sliding-window admission engine of the distributed rate limiter

    Shallow embedding of [src/app/rate_limiter.py]: the four Redis commands
    the Lua script issues, the script itself, and the two methods of
    [DistributedRateLimiter]; of the two logging functions of
    [src/app/analytics.py]; and of [get_client_id] and the HTTP middleware of
    [src/app/main.py].

    Modelling conventions.
    - Integers are [Z].  The Lua numbers of the script are doubles and are
      rendered in decimal when handed to Redis; for millisecond timestamps,
      windows and limits (magnitude below 2^53) the arithmetic and the
      rendering are exact, which is the range this model speaks about.
    - A sorted set is a finite map from member to score.  The script only
      ever adds members that are the decimal rendering of a timestamp, so a
      member is represented by the integer it renders.
    - [time.time()] is an input: every call receives the clock reading
      [now_ms] it would have taken.
    - A key's time to live is recorded as the last value handed to PEXPIRE;
      the passing of real time (and the eviction it causes) is not part of
      the model.
    - The middleware handles one request at a time: nothing else touches
      the store between its admission check and its usage query.  Whether
      the server answers is an input of each of these two round trips.  The
      routed application and the response objects of the web framework are
      parameters. *)

From stdpp Require Import gmap strings list fin_maps pretty.
From Stdlib Require Import ZArith Lia.

Local Open Scope Z_scope.

(** ** The Redis commands used by the script *)

Module Redis.

(** Value stored under a key: a sorted set and the key's time to live. *)
Record zkey := ZKey { members : gmap Z Z; ttl : option Z }.

Abbreviation keyspace := (gmap string zkey).

(** Entries of the sorted set at [key]; a missing key is an empty set. *)
Definition entries (db : keyspace) (key : string) : gmap Z Z :=
  match db !! key with
  | Some v => members v
  | None => ∅
  end.

(** Time to live of [key], if the key exists and has one. *)
Definition expiry (db : keyspace) (key : string) : option Z :=
  match db !! key with
  | Some v => ttl v
  | None => None
  end.

(** [ZREMRANGEBYSCORE key -inf max]: both bounds are inclusive, every
    member whose score is at most [max] goes and [kept max] is what
    stays.  A sorted set that becomes empty is removed together with its
    key. *)
Definition kept (max : Z) (zs : gmap Z Z) : gmap Z Z :=
  filter (λ p : Z * Z, max < p.2) zs.

Definition ZREMRANGEBYSCORE (db : keyspace) (key : string) (max : Z)
  : keyspace :=
  match db !! key with
  | None => db
  | Some v =>
      let rest := kept max (members v) in
      if decide (rest = ∅) then delete key db
      else <[key := ZKey rest (ttl v)]> db
  end.

(** [ZCARD key]: number of members, 0 for a missing key. *)
Definition ZCARD (db : keyspace) (key : string) : Z :=
  match db !! key with
  | None => 0
  | Some v => Z.of_nat (size (members v))
  end.

(** [ZADD key score member]: upsert by member. *)
Definition ZADD (db : keyspace) (key : string) (score member : Z)
  : keyspace :=
  match db !! key with
  | None => <[key := ZKey {[member := score]} None]> db
  | Some v => <[key := ZKey (<[member := score]> (members v)) (ttl v)]> db
  end.

(** [PEXPIRE key ms]: sets the time to live of an existing key; a
    non-positive time to live deletes the key at once. *)
Definition PEXPIRE (db : keyspace) (key : string) (ms : Z) : keyspace :=
  match db !! key with
  | None => db
  | Some v =>
      if decide (ms ≤ 0) then delete key db
      else <[key := ZKey (members v) (Some ms)]> db
  end.

(** Redis never stores an empty sorted set. *)
Definition wf (db : keyspace) : Prop :=
  ∀ k v, db !! k = Some v → members v ≠ ∅.

End Redis.

Import Redis.

(** ** The Lua script [SLIDING_WINDOW_SCRIPT] *)

(** [KEYS[1] = key], [ARGV = now, window, limit].  The result is the integer
    the script returns together with the keyspace it leaves behind. *)
Definition SLIDING_WINDOW_SCRIPT (db : keyspace) (key : string)
    (now window limit : Z) : Z * keyspace :=
  let db1 := ZREMRANGEBYSCORE db key (now - window) in
  let count := ZCARD db1 key in
  if decide (count < limit) then
    let db2 := ZADD db1 key now now in
    let db3 := PEXPIRE db2 key (window * 2) in
    (1, db3)
  else (0, db1).

(** ** [DistributedRateLimiter] *)

(** Failures a call can end in.  The class has no [raise] of its own: what
    it propagates are the errors of the Redis client, [BackendUnavailable].
    [InvalidConfiguration] is the rejection of a non-positive limit or
    window. *)
Inductive error := InvalidConfiguration | BackendUnavailable.

Inductive result (A : Type) :=
| Return (a : A)
| Raise (e : error).
Arguments Return {A} a.
Arguments Raise {A} e.

(** The world a limiter talks to: whether the server answers, and its
    keyspace. *)
Record server := Server { up : bool; data : gmap string zkey }.

(** [key = f"rate:{client_id}:{endpoint}"] *)
Definition rate_key (client_id endpoint : string) : string :=
  "rate:" +:+ client_id +:+ ":" +:+ endpoint.

(** Python's [bool] on the integer the script returns. *)
Definition bool_of_int (n : Z) : bool := negb (n =? 0).

Definition allow_request (s : server) (client_id endpoint : string)
    (limit window_ms now_ms : Z) : result bool * server :=
  let key := rate_key client_id endpoint in
  if up s then
    let '(r, db') := SLIDING_WINDOW_SCRIPT (data s) key now_ms window_ms limit in
    (Return (bool_of_int r), Server true db')
  else (Raise BackendUnavailable, s).

Definition get_current_usage (s : server) (client_id endpoint : string)
    : result Z * server :=
  let key := rate_key client_id endpoint in
  if up s then (Return (ZCARD (data s) key), s)
  else (Raise BackendUnavailable, s).

(** A caller issuing one [allow_request] per clock reading, in order, all
    for one pair and one configuration. *)
Fixpoint allow_requests (s : server) (client_id endpoint : string)
    (limit window_ms : Z) (nows : list Z) : list (result bool) * server :=
  match nows with
  | [] => ([], s)
  | now :: rest =>
      let '(r, s1) := allow_request s client_id endpoint limit window_ms now in
      let '(rs, s2) := allow_requests s1 client_id endpoint limit window_ms rest in
      (r :: rs, s2)
  end.

Definition empty_server : server := Server true ∅.

(** ** Auxiliary notions used in the statements *)

(** The separator of the composite key, as a character. *)
Definition colon : Ascii.ascii :=
  Ascii.Ascii false true false true true true false false.

(** Does the string contain the separator? *)
Fixpoint has_colon (x : string) : bool :=
  match x with
  | EmptyString => false
  | String c rest => if Ascii.eqb c colon then true else has_colon rest
  end.

(** The window of a key that holds at most the entry of [now]. *)
Definition at_most_now (now : Z) (zs : gmap Z Z) : Prop :=
  zs = ∅ ∨ zs = {[now := now]}.

(** What a counter that starts at [count] and admits below [limit] answers
    to [n] requests. *)
Fixpoint admissions (count limit : Z) (n : nat) : list bool :=
  match n with
  | O => []
  | S n' =>
      if decide (count < limit) then true :: admissions (count + 1) limit n'
      else false :: admissions count limit n'
  end.

Definition admitted (bs : list bool) : Z :=
  Z.of_nat (length (filter (λ b, b = true) bs)).

(** ** Concrete states *)

(** A key holding the single request admitted at time 0. *)
Definition one_at_zero : gmap string zkey :=
  {[ rate_key "u" "/r" := ZKey {[0 := 0]} (Some 2000) ]}.

(** Two requests admitted under a limit of 2, at times 0 and 900. *)
Definition two_admitted : server :=
  (allow_requests empty_server "u" "/r" 2 1000 [0; 900]).2.

(** The server after one request admitted at time 5 under a limit of 2. *)
Definition one_at_five : server :=
  (allow_request empty_server "u" "/r" 2 1000 5).2.


(** ** [analytics.py] *)

(** The two levels the module logs at; the logger is configured at [INFO],
    so records of both levels are emitted. *)
Inductive level := INFO | WARNING.

(** [logger.info(f"ALLOWED: {client_id} hit {endpoint}")]: the record is
    appended to what the logger has emitted so far. *)
Definition log_request (log : list (level * string))
    (client_id endpoint : string) : list (level * string) :=
  log ++ [(INFO, "ALLOWED: " +:+ client_id +:+ " hit " +:+ endpoint)].

(** [logger.warning(f"BLOCKED: {client_id} exceeded quota on {endpoint}")] *)
Definition log_violation (log : list (level * string))
    (client_id endpoint : string) : list (level * string) :=
  log ++ [(WARNING,
           "BLOCKED: " +:+ client_id +:+ " exceeded quota on " +:+ endpoint)].

(** ** [main.py] *)

Definition DEFAULT_LIMIT : Z := 100.
Definition DEFAULT_WINDOW : Z := 60000.

(** What the middleware reads of a request: [request.url.path], the value
    of the [X-API-Key] header ([None] when the header is absent) and
    [request.client.host] ([None] when the request carries no client
    address, in which case reading [.host] raises). *)
Record request := Request {
  path : string;
  api_key : option string;
  client : option string
}.

(** How the handling of a request can break off: the attribute error of a
    missing client address, or an error propagated from the limiter. *)
Inductive failure := AttributeError | Propagated (e : error).

Inductive outcome (A : Type) :=
| Done (a : A)
| Crashed (f : failure).
Arguments Done {A} a.
Arguments Crashed {A} f.

(** [get_client_id]: the API key when the header is present and not empty
    ([if api_key:]), the client address otherwise. *)
Definition get_client_id (r : request) : outcome string :=
  let from_address :=
    match client r with
    | Some host => Done ("ip:" +:+ host)
    | None => Crashed AttributeError
    end in
  match api_key r with
  | Some k => if decide (k = "") then from_address else Done ("key:" +:+ k)
  | None => from_address
  end.

(** What a process is made of, as far as the middleware goes: the Redis
    server behind the global [limiter], the records logged so far, and the
    requests handed to [call_next] so far. *)
Record world := World {
  limiter : server;
  log : list (level * string);
  forwarded : list request
}.

(** A request as it arrives at a process: the request, the clock value the
    admission check reads, and whether the Redis server answers each of the
    two round trips the middleware may make for it: the admission check,
    and the usage query that follows an admission. *)
Record arrival := Arrival {
  req : request;
  at_ms : Z;
  check_up : bool;
  usage_up : bool
}.

Section Middleware.
Context {response : Type}.
(** The routed application behind the middleware. *)
Variable call_next : request → response.
(** [JSONResponse(status_code=..., content={...})] *)
Variable JSONResponse : Z → list (string * string) → response.
(** [response.headers[name] = value] *)
Variable set_header : response → string → string → response.

(** [answers_check] and [answers_usage] say whether the server answers the
    round trip of [allow_request] and the later one of [get_current_usage];
    the flag stored with the limiter is not read. *)
Definition rate_limit_middleware (w : world) (r : request) (now_ms : Z)
    (answers_check answers_usage : bool) : outcome response * world :=
  if decide (path r = "/health") then
    (Done (call_next r), World (limiter w) (log w) (forwarded w ++ [r]))
  else
    match get_client_id r with
    | Crashed f => (Crashed f, w)
    | Done client_id =>
        let endpoint := path r in
        match allow_request (Server answers_check (data (limiter w)))
                client_id endpoint DEFAULT_LIMIT DEFAULT_WINDOW now_ms with
        | (Raise e, s1) =>
            (Crashed (Propagated e), World s1 (log w) (forwarded w))
        | (Return false, s1) =>
            (Done (JSONResponse 429
                     [("detail", "Too many requests. Please retry later.")]),
             World s1 (log_violation (log w) client_id endpoint) (forwarded w))
        | (Return true, s1) =>
            let log1 := log_request (log w) client_id endpoint in
            let resp := call_next r in
            let fwd := forwarded w ++ [r] in
            match get_current_usage (Server answers_usage (data s1))
                    client_id endpoint with
            | (Raise e, s2) => (Crashed (Propagated e), World s2 log1 fwd)
            | (Return usage, s2) =>
                let remaining := DEFAULT_LIMIT - usage in
                let resp1 :=
                  set_header resp "X-RateLimit-Limit" (pretty DEFAULT_LIMIT) in
                let resp2 :=
                  set_header resp1 "X-RateLimit-Remaining"
                    (pretty (Z.max 0 remaining)) in
                (Done resp2, World s2 log1 fwd)
            end
        end
    end.

(** A process handling the requests that arrive, one after the other. *)
Fixpoint serve (w : world) (reqs : list arrival)
    : list (outcome response) * world :=
  match reqs with
  | [] => ([], w)
  | a :: rest =>
      let '(o, w1) :=
        rate_limit_middleware w (req a) (at_ms a) (check_up a) (usage_up a) in
      let '(os, w2) := serve w1 rest in
      (o :: os, w2)
  end.

End Middleware.

Definition fresh_world : world := World empty_server [] [].

(** A stand-in application and response type for concrete runs: a response
    is a status code with its headers, most recent first. *)
Definition plain_call_next (r : request) : Z * list (string * string) :=
  (200, []).
Definition plain_JSONResponse (status : Z) (content : list (string * string))
    : Z * list (string * string) := (status, []).
Definition plain_set_header (resp : Z * list (string * string))
    (name value : string) : Z * list (string * string) :=
  (resp.1, (name, value) :: resp.2).

(** A key of the middleware that holds the requests admitted at the
    milliseconds 1 to 100. *)
Definition hundred_entries : gmap Z Z :=
  list_to_map (map (λ n : nat, (Z.of_nat n, Z.of_nat n)) (seq 1 100)).

Definition full_world : world :=
  World (Server true
           {[ rate_key "key:k" "/api/resource"
              := ZKey hundred_entries (Some 120000) ]}) [] [].

(** ** What each Redis command does to a key, and to the other keys *)

Section RedisCommands.
Implicit Types (db : gmap string zkey) (key : string) (zs : gmap Z Z).

Lemma lookup_kept max zs m sc :
  kept max zs !! m = Some sc ↔ zs !! m = Some sc ∧ max < sc.
Proof. unfold kept. by rewrite map_lookup_filter_Some. Qed.

Lemma kept_all max zs :
  (∀ m sc, zs !! m = Some sc → max < sc) → kept max zs = zs.
Proof.
  intros Hall. apply map_filter_id. intros m sc Hm. simpl. eauto.
Qed.

Lemma kept_size max zs : (size (kept max zs) ≤ size zs)%nat.
Proof. apply map_size_filter. Qed.

Lemma ZCARD_entries db key : ZCARD db key = Z.of_nat (size (entries db key)).
Proof.
  unfold ZCARD, entries. destruct (db !! key); [done|].
  by rewrite map_size_empty.
Qed.

Lemma entries_ZREMRANGEBYSCORE db key max :
  entries (ZREMRANGEBYSCORE db key max) key = kept max (entries db key).
Proof.
  unfold ZREMRANGEBYSCORE, entries, kept.
  destruct (db !! key) as [v|] eqn:Hk.
  - case_decide as He.
    + rewrite lookup_delete_eq. by rewrite He.
    + by rewrite lookup_insert_eq.
  - rewrite Hk. by rewrite map_filter_empty.
Qed.

Lemma expiry_ZREMRANGEBYSCORE db key max :
  expiry (ZREMRANGEBYSCORE db key max) key =
  if decide (kept max (entries db key) = ∅) then None else expiry db key.
Proof.
  unfold ZREMRANGEBYSCORE, entries, expiry, kept.
  destruct (db !! key) as [v|] eqn:Hk.
  - case_decide as He.
    + by rewrite lookup_delete_eq.
    + by rewrite lookup_insert_eq.
  - rewrite Hk. by rewrite map_filter_empty, decide_True.
Qed.

Lemma ZREMRANGEBYSCORE_other db key key' max :
  key ≠ key' → ZREMRANGEBYSCORE db key max !! key' = db !! key'.
Proof.
  intros Hne. unfold ZREMRANGEBYSCORE.
  destruct (db !! key) as [v|]; [|done].
  case_decide; [by rewrite lookup_delete_ne | by rewrite lookup_insert_ne].
Qed.

(** Nothing to trim: the command leaves the keyspace as it is. *)
Lemma ZREMRANGEBYSCORE_id db key max :
  wf db →
  (∀ m sc, entries db key !! m = Some sc → max < sc) →
  ZREMRANGEBYSCORE db key max = db.
Proof.
  intros Hwf Hall. unfold ZREMRANGEBYSCORE.
  destruct (db !! key) as [[zs t]|] eqn:Hk; [|done].
  assert (Hz : kept max zs = zs).
  { apply kept_all. intros m sc Hm. apply (Hall m sc).
    unfold entries. by rewrite Hk. }
  simpl. rewrite Hz.
  rewrite decide_False; [by apply insert_id|].
  apply (Hwf key (ZKey zs t) Hk).
Qed.

Lemma entries_ZADD db key sc m :
  entries (ZADD db key sc m) key = <[m := sc]> (entries db key).
Proof.
  unfold ZADD, entries.
  destruct (db !! key) as [v|]; by rewrite lookup_insert_eq.
Qed.

Lemma expiry_ZADD db key sc m :
  expiry (ZADD db key sc m) key = expiry db key.
Proof.
  unfold ZADD, expiry.
  destruct (db !! key) as [v|]; by rewrite lookup_insert_eq.
Qed.

Lemma ZADD_other db key key' sc m :
  key ≠ key' → ZADD db key sc m !! key' = db !! key'.
Proof.
  intros Hne. unfold ZADD.
  destruct (db !! key) as [v|]; by rewrite lookup_insert_ne.
Qed.

Lemma ZADD_is_Some db key sc m : is_Some (ZADD db key sc m !! key).
Proof.
  unfold ZADD. destruct (db !! key); rewrite lookup_insert_eq; eauto.
Qed.

Lemma entries_PEXPIRE db key ms :
  0 < ms → entries (PEXPIRE db key ms) key = entries db key.
Proof.
  intros Hms. unfold PEXPIRE, entries.
  destruct (db !! key) as [v|] eqn:Hk; [|by rewrite Hk].
  rewrite decide_False by lia. by rewrite lookup_insert_eq.
Qed.

Lemma expiry_PEXPIRE db key ms :
  0 < ms → is_Some (db !! key) → expiry (PEXPIRE db key ms) key = Some ms.
Proof.
  intros Hms [v Hk]. unfold PEXPIRE, expiry. rewrite Hk.
  rewrite decide_False by lia. by rewrite lookup_insert_eq.
Qed.

(** A time to live that is not positive removes the key. *)
Lemma PEXPIRE_nonpos db key ms :
  ms ≤ 0 → PEXPIRE db key ms !! key = None.
Proof.
  intros Hms. unfold PEXPIRE.
  destruct (db !! key) as [v|] eqn:Hk; [|done].
  rewrite decide_True by lia. by rewrite lookup_delete_eq.
Qed.

Lemma PEXPIRE_other db key key' ms :
  key ≠ key' → PEXPIRE db key ms !! key' = db !! key'.
Proof.
  intros Hne. unfold PEXPIRE.
  destruct (db !! key) as [v|]; [|done].
  case_decide; [by rewrite lookup_delete_ne | by rewrite lookup_insert_ne].
Qed.

(** The commands keep the keyspace free of empty sorted sets. *)
Lemma wf_empty : wf ∅.
Proof. intros k v Hk. by rewrite lookup_empty in Hk. Qed.

Lemma wf_ZREMRANGEBYSCORE db key max :
  wf db → wf (ZREMRANGEBYSCORE db key max).
Proof.
  intros Hwf k v. unfold ZREMRANGEBYSCORE.
  destruct (db !! key) as [w|] eqn:Hk; [|apply Hwf].
  case_decide as He.
  - rewrite lookup_delete_Some. intros [_ Hv]. by apply (Hwf k).
  - rewrite lookup_insert_Some. intros [[_ <-]|[_ Hv]]; [done|].
    by apply (Hwf k).
Qed.

Lemma wf_ZADD db key sc m : wf db → wf (ZADD db key sc m).
Proof.
  intros Hwf k v. unfold ZADD.
  destruct (db !! key) as [w|] eqn:Hk;
    (rewrite lookup_insert_Some; intros [[_ <-]|[_ Hv]]; [|by apply (Hwf k)]);
    simpl.
  - apply insert_non_empty.
  - apply insert_non_empty.
Qed.

Lemma wf_PEXPIRE db key ms : wf db → wf (PEXPIRE db key ms).
Proof.
  intros Hwf k v. unfold PEXPIRE.
  destruct (db !! key) as [w|] eqn:Hk; [|apply Hwf].
  case_decide.
  - rewrite lookup_delete_Some. intros [_ Hv]. by apply (Hwf k).
  - rewrite lookup_insert_Some. intros [[_ <-]|[_ Hv]]; simpl.
    + by apply (Hwf key).
    + by apply (Hwf k).
Qed.

End RedisCommands.

(** ** The script, step by step *)

Section Script.
Implicit Types (db : gmap string zkey) (key : string).

(** The count the script compares with the limit. *)
Lemma script_count db key now window :
  ZCARD (ZREMRANGEBYSCORE db key (now - window)) key =
  Z.of_nat (size (kept (now - window) (entries db key))).
Proof. by rewrite ZCARD_entries, entries_ZREMRANGEBYSCORE. Qed.

Lemma script_allowed db key now window limit :
  Z.of_nat (size (kept (now - window) (entries db key))) < limit →
  SLIDING_WINDOW_SCRIPT db key now window limit =
  (1, PEXPIRE (ZADD (ZREMRANGEBYSCORE db key (now - window)) key now now)
        key (window * 2)).
Proof.
  intros Hlt. unfold SLIDING_WINDOW_SCRIPT.
  rewrite script_count. by rewrite decide_True.
Qed.

Lemma script_denied db key now window limit :
  limit ≤ Z.of_nat (size (kept (now - window) (entries db key))) →
  SLIDING_WINDOW_SCRIPT db key now window limit =
  (0, ZREMRANGEBYSCORE db key (now - window)).
Proof.
  intros Hge. unfold SLIDING_WINDOW_SCRIPT.
  rewrite script_count. rewrite decide_False by lia. done.
Qed.

Lemma script_returns db key now window limit :
  (SLIDING_WINDOW_SCRIPT db key now window limit).1 =
  if decide (Z.of_nat (size (kept (now - window) (entries db key))) < limit)
  then 1 else 0.
Proof.
  case_decide.
  - by rewrite script_allowed.
  - rewrite script_denied by lia. done.
Qed.

Lemma script_other db key key' now window limit :
  key ≠ key' →
  (SLIDING_WINDOW_SCRIPT db key now window limit).2 !! key' = db !! key'.
Proof.
  intros Hne. unfold SLIDING_WINDOW_SCRIPT. case_decide; simpl.
  - rewrite PEXPIRE_other, ZADD_other, ZREMRANGEBYSCORE_other; done.
  - by rewrite ZREMRANGEBYSCORE_other.
Qed.

Lemma script_wf db key now window limit :
  wf db → wf (SLIDING_WINDOW_SCRIPT db key now window limit).2.
Proof.
  intros Hwf. unfold SLIDING_WINDOW_SCRIPT. case_decide; simpl.
  - by apply wf_PEXPIRE, wf_ZADD, wf_ZREMRANGEBYSCORE.
  - by apply wf_ZREMRANGEBYSCORE.
Qed.

(** The admitting branch, for a positive window: the caller's timestamp is
    upserted into the trimmed set and the key lives for two windows. *)
Lemma script_allowed_entries db key now window limit :
  0 < window →
  Z.of_nat (size (kept (now - window) (entries db key))) < limit →
  entries (SLIDING_WINDOW_SCRIPT db key now window limit).2 key =
  <[now := now]> (kept (now - window) (entries db key)).
Proof.
  intros Hw Hlt. rewrite script_allowed by done. simpl.
  rewrite entries_PEXPIRE by lia.
  by rewrite entries_ZADD, entries_ZREMRANGEBYSCORE.
Qed.

Lemma script_allowed_expiry db key now window limit :
  0 < window →
  Z.of_nat (size (kept (now - window) (entries db key))) < limit →
  expiry (SLIDING_WINDOW_SCRIPT db key now window limit).2 key =
  Some (window * 2).
Proof.
  intros Hw Hlt. rewrite script_allowed by done. simpl.
  apply expiry_PEXPIRE; [lia | apply ZADD_is_Some].
Qed.

(** With a window that is not positive the admitting branch ends by
    deleting the key. *)
Lemma script_allowed_nonpos_window db key now window limit :
  window ≤ 0 →
  Z.of_nat (size (kept (now - window) (entries db key))) < limit →
  (SLIDING_WINDOW_SCRIPT db key now window limit).2 !! key = None.
Proof.
  intros Hw Hlt. rewrite script_allowed by done. simpl.
  apply PEXPIRE_nonpos. lia.
Qed.

End Script.

(** ** The two methods on a server that answers, and on one that does not *)

Section Engine.
Implicit Types (s : server) (client_id endpoint : string).

Lemma allow_request_down s client_id endpoint limit window_ms now_ms :
  up s = false →
  allow_request s client_id endpoint limit window_ms now_ms =
  (Raise BackendUnavailable, s).
Proof. intros Hup. unfold allow_request. by rewrite Hup. Qed.

Lemma allow_request_up s client_id endpoint limit window_ms now_ms :
  up s = true →
  allow_request s client_id endpoint limit window_ms now_ms =
  let out := SLIDING_WINDOW_SCRIPT (data s) (rate_key client_id endpoint)
               now_ms window_ms limit in
  (Return (bool_of_int out.1), Server true out.2).
Proof.
  intros Hup. unfold allow_request. rewrite Hup.
  by destruct (SLIDING_WINDOW_SCRIPT _ _ _ _ _).
Qed.

(** The decision, in terms of the entries stored before the call. *)
Lemma allow_request_decision s client_id endpoint limit window_ms now_ms :
  up s = true →
  (allow_request s client_id endpoint limit window_ms now_ms).1 =
  Return (bool_decide
    (Z.of_nat (size (kept (now_ms - window_ms)
       (entries (data s) (rate_key client_id endpoint)))) < limit)).
Proof.
  intros Hup. rewrite allow_request_up by done. simpl.
  rewrite script_returns. by case_decide; case_bool_decide.
Qed.

Lemma allow_request_keeps_up s client_id endpoint limit window_ms now_ms :
  up (allow_request s client_id endpoint limit window_ms now_ms).2 = up s.
Proof.
  unfold allow_request. destruct (up s) eqn:Hup; [|done].
  by destruct (SLIDING_WINDOW_SCRIPT _ _ _ _ _).
Qed.

Lemma allow_request_other s client_id endpoint limit window_ms now_ms key' :
  rate_key client_id endpoint ≠ key' →
  data (allow_request s client_id endpoint limit window_ms now_ms).2 !! key'
  = data s !! key'.
Proof.
  intros Hne. unfold allow_request. destruct (up s) eqn:Hup; [|done].
  pose proof (script_other (data s) _ key' now_ms window_ms limit Hne) as H.
  by destruct (SLIDING_WINDOW_SCRIPT _ _ _ _ _).
Qed.

Lemma allow_request_wf s client_id endpoint limit window_ms now_ms :
  wf (data s) →
  wf (data (allow_request s client_id endpoint limit window_ms now_ms).2).
Proof.
  intros Hwf. unfold allow_request. destruct (up s) eqn:Hup; [|done].
  pose proof (script_wf (data s) (rate_key client_id endpoint)
                now_ms window_ms limit Hwf) as H.
  by destruct (SLIDING_WINDOW_SCRIPT _ _ _ _ _).
Qed.

(** An admitted call stores the caller's timestamp (upsert) and refreshes
    the key's time to live. *)
Lemma allow_request_admitted s client_id endpoint limit window_ms now_ms s' :
  0 < window_ms →
  allow_request s client_id endpoint limit window_ms now_ms
    = (Return true, s') →
  let key := rate_key client_id endpoint in
  entries (data s') key =
    <[now_ms := now_ms]> (kept (now_ms - window_ms) (entries (data s) key))
  ∧ expiry (data s') key = Some (window_ms * 2).
Proof.
  intros Hw Hcall key.
  assert (Hup : up s = true).
  { destruct (up s) eqn:Hup; [done|].
    rewrite allow_request_down in Hcall by done. congruence. }
  pose proof (allow_request_decision s client_id endpoint limit
                window_ms now_ms Hup) as Hd.
  rewrite Hcall in Hd. simpl in Hd. injection Hd as Hd.
  symmetry in Hd. apply bool_decide_eq_true in Hd.
  rewrite allow_request_up in Hcall by done. simpl in Hcall.
  injection Hcall as _ <-. simpl. split.
  - by apply script_allowed_entries.
  - by apply script_allowed_expiry.
Qed.

(** A denied call has run the trim and nothing else. *)
Lemma allow_request_denied s client_id endpoint limit window_ms now_ms s' :
  allow_request s client_id endpoint limit window_ms now_ms
    = (Return false, s') →
  up s = true ∧
  s' = Server true (ZREMRANGEBYSCORE (data s)
                      (rate_key client_id endpoint) (now_ms - window_ms)).
Proof.
  intros Hcall.
  assert (Hup : up s = true).
  { destruct (up s) eqn:Hup; [done|].
    rewrite allow_request_down in Hcall by done. congruence. }
  split; [done|].
  pose proof (allow_request_decision s client_id endpoint limit
                window_ms now_ms Hup) as Hd.
  rewrite Hcall in Hd. simpl in Hd. injection Hd as Hd.
  symmetry in Hd. apply bool_decide_eq_false in Hd.
  rewrite allow_request_up in Hcall by done. simpl in Hcall.
  rewrite script_denied in Hcall by lia. simpl in Hcall. congruence.
Qed.


End Engine.

(** ** Admitted calls *)

(** An admitted call whose timestamp is not yet a member of the trimmed set
    adds exactly one entry. *)
Lemma allow_request_admitted_fresh
    (s s' : server) (client_id endpoint : string) (limit window_ms now_ms : Z) :
  0 < window_ms →
  allow_request s client_id endpoint limit window_ms now_ms = (Return true, s') →
  let key := rate_key client_id endpoint in
  kept (now_ms - window_ms) (entries (data s) key) !! now_ms = None →
  ZCARD (data s') key
  = Z.of_nat (size (kept (now_ms - window_ms) (entries (data s) key))) + 1.
Proof.
  intros Hw Hcall key Hfresh.
  apply allow_request_admitted in Hcall as [He _]; [|done].
  fold key in He. rewrite ZCARD_entries, He.
  rewrite map_size_insert_None by done. lia.
Qed.

(** The scenario of limit 3 and window 1000: the calls at 0, 100 and 200
    are admitted, the call at 300 is denied, and the call at 1100 is
    admitted after the entries of 0 and 100 have been trimmed. *)
Example scenario_limit_3_window_1000 :
  let run := allow_requests empty_server "u" "/r" 3 1000 [0; 100; 200; 300; 1100] in
  run.1 = [Return true; Return true; Return true; Return false; Return true]
  ∧ get_current_usage run.2 "u" "/r" = (Return 2, run.2)
  ∧ entries (data run.2) (rate_key "u" "/r")
    = <[1100 := 1100]> {[200 := 200]}.
Proof. by vm_compute. Qed.

(** ** Trimming (C5) *)



(** Once the whole script has run, every stored score is strictly above
    [now - window]. *)
Lemma script_scores_above_bound
    (db : gmap string zkey) (key : string) (now window limit m sc : Z) :
  entries (SLIDING_WINDOW_SCRIPT db key now window limit).2 key !! m = Some sc →
  now - window < sc.
Proof.
  destruct (decide (Z.of_nat (size (kept (now - window) (entries db key)))
                    < limit)) as [Hlt|Hge].
  - destruct (decide (0 < window)) as [Hw|Hw].
    + rewrite script_allowed_entries by done.
      rewrite lookup_insert_Some. intros [[_ <-]|[_ Hm]]; [lia|].
      by apply lookup_kept in Hm as [_ ?].
    + unfold entries.
      rewrite script_allowed_nonpos_window by (done || lia).
      by rewrite lookup_empty.
  - rewrite script_denied by lia. simpl.
    rewrite entries_ZREMRANGEBYSCORE. intros Hm.
    by apply lookup_kept in Hm as [_ ?].
Qed.

(** ** Denied calls (C6) *)

(** C6, as stated, fails: a call at time 1000 under a limit of 1 is denied,
    yet the entry of time 0 is gone afterwards. *)
Lemma C6_denied_call_trims :
  (allow_request two_admitted "u" "/r" 1 1000 1000).1 = Return false
  ∧ entries (data two_admitted) (rate_key "u" "/r") !! 0 = Some 0
  ∧ entries (data (allow_request two_admitted "u" "/r" 1 1000 1000).2)
      (rate_key "u" "/r") !! 0 = None.
Proof. by vm_compute. Qed.

(** A denied call that is given nothing to trim leaves the state alone. *)
Lemma denied_nothing_trimmed
    (s s' : server) (client_id endpoint : string) (limit window_ms now_ms : Z) :
  allow_request s client_id endpoint limit window_ms now_ms = (Return false, s') →
  wf (data s) →
  kept (now_ms - window_ms) (entries (data s) (rate_key client_id endpoint))
  = entries (data s) (rate_key client_id endpoint) →
  s' = s.
Proof.
  intros Hcall Hwf Hrest.
  apply allow_request_denied in Hcall as [Hup ->].
  rewrite ZREMRANGEBYSCORE_id; [by destruct s; simplify_eq/=|done|].
  intros m sc Hm. rewrite <- Hrest in Hm.
  by apply lookup_kept in Hm as [_ ?].
Qed.

(** A denied call on a key that holds no more entries than the limit had
    nothing to trim: all the entries it found are needed to reach the
    limit. *)
Lemma denied_within_limit
    (s s' : server) (client_id endpoint : string) (limit window_ms now_ms : Z) :
  allow_request s client_id endpoint limit window_ms now_ms = (Return false, s') →
  wf (data s) →
  ZCARD (data s) (rate_key client_id endpoint) ≤ limit →
  s' = s.
Proof.
  intros Hcall Hwf Hcount.
  apply (denied_nothing_trimmed s s' client_id endpoint limit window_ms now_ms);
    [done|done|].
  assert (Hup : up s = true) by (by apply allow_request_denied in Hcall as [? _]).
  pose proof (allow_request_decision s client_id endpoint limit
                window_ms now_ms Hup) as Hd.
  rewrite Hcall in Hd. simpl in Hd. injection Hd as Hd.
  symmetry in Hd. apply bool_decide_eq_false in Hd.
  rewrite ZCARD_entries in Hcount.
  apply map_subseteq_size_eq; [apply map_filter_subseteq|]. lia.
Qed.

(** C6, amended: a denied call adds no entry and sets no expiry, and leaves
    the other keys untouched.  When the key holds no more entries than the
    limit of the call, as it does in every state reached by calls under that
    one limit, the denied call changes nothing: the state after it is the
    state before it.  Only on a key that holds more entries than the limit
    (the limit was lowered) can a denied call change the key, and then by
    the trim alone: what it leaves are the entries it found minus those with
    score at most [now - window_ms], with the expiry it found (if the trim
    empties the key, the key is removed, expiry included). *)
Theorem C6_denied_call_only_trims
    (s s' : server) (client_id endpoint : string) (limit window_ms now_ms : Z) :
  allow_request s client_id endpoint limit window_ms now_ms = (Return false, s') →
  let key := rate_key client_id endpoint in
  let rest := kept (now_ms - window_ms) (entries (data s) key) in
  entries (data s') key = rest
  ∧ expiry (data s') key
    = (if decide (rest = ∅) then None else expiry (data s) key)
  ∧ (∀ key', key ≠ key' → data s' !! key' = data s !! key')
  ∧ (wf (data s) → rest = entries (data s) key → s' = s)
  ∧ (wf (data s) → ZCARD (data s) key ≤ limit → s' = s).
Proof.
  intros Hcall key rest.
  split; [|split; [|split; [|split]]].
  - apply allow_request_denied in Hcall as [Hup ->]. simpl.
    apply entries_ZREMRANGEBYSCORE.
  - apply allow_request_denied in Hcall as [Hup ->]. simpl.
    apply expiry_ZREMRANGEBYSCORE.
  - apply allow_request_denied in Hcall as [Hup ->]. simpl.
    intros key' Hne. by apply ZREMRANGEBYSCORE_other.
  - intros Hwf Hrest.
    by apply (denied_nothing_trimmed s s' client_id endpoint limit
                window_ms now_ms).
  - intros Hwf Hcount.
    by apply (denied_within_limit s s' client_id endpoint limit
                window_ms now_ms).
Qed.

Lemma C6_denied_call_only_trims_witness :
  let key := rate_key "u" "/r" in
  let s' := (allow_request two_admitted "u" "/r" 2 1000 950).2 in
  let rest := kept (950 - 1000) (entries (data two_admitted) key) in
  entries (data s') key = rest
  ∧ expiry (data s') key
    = (if decide (rest = ∅) then None else expiry (data two_admitted) key)
  ∧ (∀ key', key ≠ key' → data s' !! key' = data two_admitted !! key')
  ∧ (wf (data two_admitted) → rest = entries (data two_admitted) key
     → s' = two_admitted)
  ∧ (wf (data two_admitted) → ZCARD (data two_admitted) key ≤ 2
     → s' = two_admitted).
Proof.
  apply (C6_denied_call_only_trims two_admitted _ "u" "/r" 2 1000 950).
  by vm_compute.
Defined.

(** ** Non-positive configuration (C7, C10) *)

(** C7, as stated, fails: a call with [limit = 0] is not rejected, it
    returns [false] after the backend has run the script (the entry of time 0
    is trimmed); and a call with [window_ms = 0] returns [true]. *)
Lemma C7_no_rejection :
  (allow_request (Server true one_at_zero) "u" "/r" 0 1000 1000).1
    = Return false
  ∧ data (allow_request (Server true one_at_zero) "u" "/r" 0 1000 1000).2
      !! rate_key "u" "/r" = None
  ∧ one_at_zero !! rate_key "u" "/r" = Some (ZKey {[0 := 0]} (Some 2000))
  ∧ (allow_request empty_server "u" "/r" 1 0 5).1 = Return true.
Proof. by vm_compute. Qed.

(** C7, amended: a call with a non-positive limit or window is not
    validated.  It never ends in [InvalidConfiguration]; it is sent to the
    backend like any other call: a server that does not answer makes it fail
    with [BackendUnavailable], and one that answers runs the script, whose
    decision (is the trimmed count below the limit?) is returned. *)
Theorem C7_nonpositive_configuration_reaches_backend
    (s : server) (client_id endpoint : string) (limit window_ms now_ms : Z) :
  limit ≤ 0 ∨ window_ms ≤ 0 →
  let call := allow_request s client_id endpoint limit window_ms now_ms in
  call.1 ≠ Raise InvalidConfiguration
  ∧ (up s = false → call = (Raise BackendUnavailable, s))
  ∧ (up s = true →
     call = (Return (bool_of_int
               (SLIDING_WINDOW_SCRIPT (data s) (rate_key client_id endpoint)
                  now_ms window_ms limit).1),
             Server true
               (SLIDING_WINDOW_SCRIPT (data s) (rate_key client_id endpoint)
                  now_ms window_ms limit).2)
     ∧ (limit ≤ 0 → call.1 = Return false)
     ∧ (0 < limit → window_ms ≤ 0 → call.1 = Return true →
        data call.2 !! rate_key client_id endpoint = None)).
Proof.
  intros _ call. subst call.
  split.
  { destruct (up s) eqn:Hup.
    - by rewrite allow_request_decision.
    - by rewrite allow_request_down. }
  split; [apply allow_request_down|].
  intros Hup. split; [by apply allow_request_up|]. split.
  - intros Hl. rewrite allow_request_decision by done.
    by rewrite bool_decide_eq_false_2 by lia.
  - intros _ Hw. rewrite allow_request_decision by done.
    intros [= Hd]. apply bool_decide_eq_true in Hd.
    rewrite allow_request_up by done. simpl.
    by apply script_allowed_nonpos_window.
Qed.

Lemma C7_nonpositive_configuration_reaches_backend_witness :
  let call := allow_request (Server true one_at_zero) "u" "/r" 0 1000 1000 in
  call.1 ≠ Raise InvalidConfiguration ∧ call.1 = Return false.
Proof.
  destruct (C7_nonpositive_configuration_reaches_backend
              (Server true one_at_zero) "u" "/r" 0 1000 1000)
    as (Hno & _ & Hup); [left; lia|].
  destruct (Hup eq_refl) as (_ & Hfalse & _).
  split; [exact Hno | apply Hfalse; lia].
Defined.

(** C10: with [limit ≤ 0] the call is an always-deny, not an error.  It never
    ends in [InvalidConfiguration]; on a server that answers it returns
    [false] and every entry stored afterwards was stored before (nothing is
    inserted); that the backend is contacted shows on a server that does not
    answer, where the call fails with [BackendUnavailable]. *)
Theorem C10_nonpositive_limit_always_denies
    (s : server) (client_id endpoint : string) (limit window_ms now_ms : Z) :
  limit ≤ 0 →
  let call := allow_request s client_id endpoint limit window_ms now_ms in
  let key := rate_key client_id endpoint in
  call.1 ≠ Raise InvalidConfiguration
  ∧ (up s = true →
     call.1 = Return false
     ∧ entries (data call.2) key
       = kept (now_ms - window_ms) (entries (data s) key)
     ∧ (∀ m sc, entries (data call.2) key !! m = Some sc →
                entries (data s) key !! m = Some sc))
  ∧ (up s = false → call = (Raise BackendUnavailable, s)).
Proof.
  intros Hl call key. subst call.
  assert (Hfalse : up s = true →
    (allow_request s client_id endpoint limit window_ms now_ms).1 = Return false).
  { intros Hup. rewrite allow_request_decision by done.
    by rewrite bool_decide_eq_false_2 by lia. }
  split.
  { destruct (up s) eqn:Hup.
    - by rewrite Hfalse.
    - by rewrite allow_request_down. }
  split; [|apply allow_request_down].
  intros Hup. split; [by apply Hfalse|].
  destruct (allow_request s client_id endpoint limit window_ms now_ms)
    as [r s'] eqn:Hcall.
  specialize (Hfalse Hup). simpl in Hfalse. subst r.
  apply allow_request_denied in Hcall as [_ ->]. simpl.
  rewrite entries_ZREMRANGEBYSCORE. split; [done|].
  intros m sc Hm. by apply lookup_kept in Hm as [? _].
Qed.

Lemma C10_nonpositive_limit_always_denies_witness :
  let call := allow_request (Server true one_at_zero) "u" "/r" (-1) 1000 500 in
  call.1 = Return false
  ∧ entries (data call.2) (rate_key "u" "/r") = {[0 := 0]}.
Proof.
  destruct (C10_nonpositive_limit_always_denies
              (Server true one_at_zero) "u" "/r" (-1) 1000 500)
    as (_ & Hup & _); [lia|].
  destruct (Hup eq_refl) as (Hfalse & Hent & _).
  split; [exact Hfalse|]. rewrite Hent. by vm_compute.
Defined.

(** ** Composite keys (C8) *)

Section Keys.
Implicit Types (a b x y : string).

Lemma append_nil x : "" +:+ x = x.
Proof. reflexivity. Qed.

Lemma append_cons c a x : String c a +:+ x = String c (a +:+ x).
Proof. reflexivity. Qed.

Lemma has_colon_app_colon a x : has_colon (a +:+ String colon x) = true.
Proof.
  induction a as [|c a IH]; rewrite ?append_nil, ?append_cons; simpl.
  - done.
  - by destruct (Ascii.eqb c colon).
Qed.

(** The separator splits a key in one way only when the identities, or the
    resources, are free of it. *)
Lemma split_at_colon a b x y :
  (has_colon a = false ∧ has_colon b = false)
  ∨ (has_colon x = false ∧ has_colon y = false) →
  a +:+ String colon x = b +:+ String colon y → a = b ∧ x = y.
Proof.
  revert b. induction a as [|c a IH]; intros [|d b] Hfree Heq;
    rewrite ?append_nil, ?append_cons in Heq.
  - by simplify_eq.
  - injection Heq as <- ->. destruct Hfree as [[_ Hb]|[Hx _]].
    + simpl in Hb. discriminate Hb.
    + by rewrite has_colon_app_colon in Hx.
  - injection Heq as -> <-. destruct Hfree as [[Ha _]|[_ Hy]].
    + simpl in Ha. discriminate Ha.
    + by rewrite has_colon_app_colon in Hy.
  - injection Heq as -> Heq.
    destruct (IH b) as [-> ->]; [|done|done].
    destruct Hfree as [[Ha Hb]|?]; [left|by right].
    simpl in Ha, Hb. by destruct (Ascii.eqb d colon).
Qed.

Lemma rate_key_inj a b x y :
  (has_colon a = false ∧ has_colon b = false)
  ∨ (has_colon x = false ∧ has_colon y = false) →
  rate_key a x = rate_key b y → a = b ∧ x = y.
Proof.
  intros Hfree Heq. apply (split_at_colon a b x y Hfree).
  unfold rate_key in Heq.
  change (":" +:+ x) with (String colon x) in Heq.
  change (":" +:+ y) with (String colon y) in Heq.
  rewrite !append_cons, !append_nil in Heq. by simplify_eq.
Qed.

End Keys.




(** ** Requests in the same millisecond (C1, C2, C3, C4, C9) *)

(** The script stores a request under the member [now]: two requests that
    read the same clock value share one entry. *)

Section SameMillisecond.
Implicit Types (s : server) (zs : gmap Z Z).

Lemma kept_idemp max zs : kept max (kept max zs) = kept max zs.
Proof.
  apply kept_all. intros m sc Hm. by apply lookup_kept in Hm as [_ ?].
Qed.

Lemma kept_insert max zs m sc :
  max < sc → kept max (<[m := sc]> zs) = <[m := sc]> (kept max zs).
Proof. intros Hlt. unfold kept. by rewrite map_filter_insert_True. Qed.

(** On the set an admitted call at [now] leaves behind, a second call at
    [now] finds nothing to trim and nothing new to add. *)
Lemma upsert_again now window zs :
  0 < window →
  let zs1 := <[now := now]> (kept (now - window) zs) in
  <[now := now]> (kept (now - window) zs1) = zs1.
Proof.
  intros Hw zs1. subst zs1.
  rewrite kept_insert by lia. rewrite kept_idemp.
  by rewrite insert_insert_eq.
Qed.

Lemma at_most_now_size now zs : at_most_now now zs → (size zs ≤ 1)%nat.
Proof.
  intros [->| ->]; [rewrite map_size_empty | rewrite map_size_singleton]; lia.
Qed.

Lemma at_most_now_upsert now window zs :
  0 < window → at_most_now now zs →
  <[now := now]> (kept (now - window) zs) = {[now := now]}.
Proof.
  intros Hw [->| ->].
  - unfold kept. by rewrite map_filter_empty, insert_empty.
  - unfold kept. rewrite map_filter_singleton_True by (simpl; lia).
    by rewrite insert_singleton_eq.
Qed.

(** Any number of calls in one millisecond are all admitted as soon as the
    limit is at least 2. *)
Lemma same_millisecond_all_admitted s client_id endpoint limit window_ms now n :
  2 ≤ limit → 0 < window_ms →
  up s = true →
  at_most_now now (entries (data s) (rate_key client_id endpoint)) →
  (allow_requests s client_id endpoint limit window_ms (replicate n now)).1
  = replicate n (Return true).
Proof.
  intros Hl Hw. revert s. induction n as [|n IH]; intros s Hup Hzs; [done|].
  simpl.
  destruct (allow_request s client_id endpoint limit window_ms now)
    as [r s1] eqn:Hcall.
  pose proof (allow_request_decision s client_id endpoint limit
                window_ms now Hup) as Hd.
  rewrite Hcall in Hd. simpl in Hd.
  pose proof (at_most_now_size _ _ Hzs) as Hsz.
  pose proof (kept_size (now - window_ms)
                (entries (data s) (rate_key client_id endpoint))) as Hk.
  rewrite bool_decide_eq_true_2 in Hd by lia. subst r.
  assert (Hup1 : up s1 = true).
  { pose proof (allow_request_keeps_up s client_id endpoint limit
                  window_ms now) as H1.
    rewrite Hcall in H1. simpl in H1. congruence. }
  apply allow_request_admitted in Hcall as [He _]; [|done].
  specialize (IH s1 Hup1).
  destruct (allow_requests s1 client_id endpoint limit window_ms
              (replicate n now)) as [rs s2].
  simpl in *. f_equal. apply IH.
  right. rewrite He. by apply at_most_now_upsert.
Qed.

End SameMillisecond.

(** C1 on the code, at the failing input: a second call in millisecond 5 is
    admitted (one entry stored, limit 2), and the key holds one entry before
    the call and the same single entry after it: no entry was inserted. *)
Theorem C1_admitted_without_insertion :
  let call := allow_request one_at_five "u" "/r" 2 1000 5 in
  call.1 = Return true
  ∧ ZCARD (data one_at_five) (rate_key "u" "/r") = 1
  ∧ ZCARD (data call.2) (rate_key "u" "/r") = 1
  ∧ entries (data call.2) (rate_key "u" "/r")
    = entries (data one_at_five) (rate_key "u" "/r")
  ∧ expiry (data call.2) (rate_key "u" "/r") = Some (2 * 1000).
Proof. by vm_compute. Qed.

(** C2 on the code, at the failing input: with [limit = 2] and three
    consecutive calls in millisecond 5, the third call, which follows
    [limit] admitted calls of the same window, is admitted too. *)
Theorem C2_third_call_admitted :
  (allow_requests empty_server "u" "/r" 2 1000 [5; 5; 5]).1
  = [Return true; Return true; Return true].
Proof. by vm_compute. Qed.

(** C3 on the code: [n] simultaneous calls that read the same clock value
    [now] are identical, so every interleaving of them is the same run of
    [n] script executions; with a limit [L ≥ 2] all [n] of them are
    admitted, however much [n] exceeds [L]. *)
Theorem C3_simultaneous_calls_all_admitted
    (client_id endpoint : string) (limit window_ms now : Z) (n : nat) :
  2 ≤ limit → 0 < window_ms →
  (allow_requests empty_server client_id endpoint limit window_ms
     (replicate n now)).1
  = replicate n (Return true).
Proof.
  intros Hl Hw. apply same_millisecond_all_admitted; [done|done|done|].
  left. unfold entries. simpl. by rewrite lookup_empty.
Qed.

Lemma C3_simultaneous_calls_all_admitted_witness :
  (allow_requests empty_server "u" "/r" 2 1000 [5; 5; 5]).1
  = [Return true; Return true; Return true].
Proof.
  apply (C3_simultaneous_calls_all_admitted "u" "/r" 2 1000 5 3); lia.
Defined.

(** C4 on the code: two requests admitted one after the other in the same
    millisecond are stored under one member, the shared timestamp; the
    second admission leaves the set of entries exactly as the first one left
    it. *)
Theorem C4_same_millisecond_one_member
    (s s1 s2 : server) (client_id endpoint : string)
    (limit window_ms now_ms : Z) :
  0 < window_ms →
  allow_request s client_id endpoint limit window_ms now_ms = (Return true, s1) →
  allow_request s1 client_id endpoint limit window_ms now_ms = (Return true, s2) →
  let key := rate_key client_id endpoint in
  entries (data s1) key !! now_ms = Some now_ms
  ∧ entries (data s2) key = entries (data s1) key
  ∧ ZCARD (data s2) key = ZCARD (data s1) key.
Proof.
  intros Hw Hfirst Hsecond key.
  apply allow_request_admitted in Hfirst as [H1 _]; [|done].
  apply allow_request_admitted in Hsecond as [H2 _]; [|done].
  fold key in H1, H2.
  assert (Hsame : entries (data s2) key = entries (data s1) key).
  { rewrite H2, H1. by apply upsert_again. }
  split; [rewrite H1; apply lookup_insert_eq|].
  split; [done|]. by rewrite !ZCARD_entries, Hsame.
Qed.

Lemma C4_same_millisecond_one_member_witness :
  let s1 := (allow_request empty_server "u" "/r" 2 1000 5).2 in
  let s2 := (allow_request s1 "u" "/r" 2 1000 5).2 in
  ZCARD (data s2) (rate_key "u" "/r") = 1.
Proof.
  intros s1 s2.
  destruct (C4_same_millisecond_one_member empty_server s1 s2 "u" "/r"
              2 1000 5) as (_ & _ & Hcard).
  - lia.
  - by vm_compute.
  - by vm_compute.
  - rewrite Hcard. by vm_compute.
Defined.

(** C9 on the code, at the failing input: after [m = 2] admitted calls
    ([limit = 2], both in millisecond 5, single-threaded) the usage reported
    is 1; the query itself leaves the server as it found it. *)
Theorem C9_usage_undercounts :
  let run := allow_requests empty_server "u" "/r" 2 1000 [5; 5] in
  run.1 = [Return true; Return true]
  ∧ (get_current_usage run.2 "u" "/r").1 = Return 1
  ∧ (get_current_usage run.2 "u" "/r").2 = run.2.
Proof. by vm_compute. Qed.

(** ** Requests at distinct milliseconds of one window *)

Section DistinctMilliseconds.
Implicit Types (s : server) (nows : list Z).

Lemma admissions_below count limit n :
  count + Z.of_nat n ≤ limit →
  admissions count limit n = replicate n true.
Proof.
  revert count. induction n as [|n IH]; intros count Hle; [done|].
  simpl. rewrite decide_True by lia. f_equal. apply IH. lia.
Qed.

Lemma admissions_full count limit n :
  limit ≤ count → admissions count limit n = replicate n false.
Proof.
  intros Hle. induction n as [|n IH]; [done|].
  simpl. rewrite decide_False by lia. by f_equal.
Qed.

Lemma admissions_one_more count limit n :
  count + Z.of_nat n = limit →
  admissions count limit (S n) = replicate n true ++ [false].
Proof.
  revert count. induction n as [|n IH]; intros count Heq.
  - simpl. by rewrite decide_False by lia.
  - change (admissions count limit (S (S n)))
      with (if decide (count < limit)
            then true :: admissions (count + 1) limit (S n)
            else false :: admissions count limit (S n)).
    rewrite decide_True by lia. rewrite IH by lia. done.
Qed.

Lemma admitted_replicate_true n : admitted (replicate n true) = Z.of_nat n.
Proof.
  unfold admitted. induction n as [|n IH]; [done|].
  change (replicate (S n) true) with (true :: replicate n true).
  rewrite filter_cons_True by done.
  change (length (true :: ?l)) with (S (length l)). lia.
Qed.

(** Calls at pairwise distinct clock values, none of them stored yet, with
    every stored score and every call inside the window of every call:
    each call finds nothing to trim and adds a fresh member, so the key
    behaves as a plain counter. *)
Lemma distinct_run s client_id endpoint limit window_ms nows :
  let key := rate_key client_id endpoint in
  0 < window_ms → up s = true →
  NoDup nows →
  (∀ t, t ∈ nows → entries (data s) key !! t = None) →
  (∀ t m sc, t ∈ nows → entries (data s) key !! m = Some sc →
             t - window_ms < sc) →
  (∀ t t', t ∈ nows → t' ∈ nows → t' - window_ms < t) →
  let run := allow_requests s client_id endpoint limit window_ms nows in
  let outcome := admissions (ZCARD (data s) key) limit (length nows) in
  run.1 = Return <$> outcome
  ∧ ZCARD (data run.2) key = ZCARD (data s) key + admitted outcome.
Proof.
  intros key Hw. revert s.
  induction nows as [|t rest IH]; intros s Hup Hnd Hfresh Hin Hpair.
  { simpl. unfold admitted. simpl. split; [done|lia]. }
  apply NoDup_cons in Hnd as [Ht Hnd].
  assert (Hkept : kept (t - window_ms) (entries (data s) key)
                  = entries (data s) key).
  { apply kept_all. intros m sc Hm. apply (Hin t m sc); [left|done]. }
  simpl.
  destruct (allow_request s client_id endpoint limit window_ms t)
    as [r s1] eqn:Hcall.
  pose proof (allow_request_decision s client_id endpoint limit
                window_ms t Hup) as Hd.
  rewrite Hcall in Hd. simpl in Hd. fold key in Hd.
  rewrite Hkept, <- ZCARD_entries in Hd.
  assert (Hup1 : up s1 = true).
  { pose proof (allow_request_keeps_up s client_id endpoint limit
                  window_ms t) as H1.
    rewrite Hcall in H1. simpl in H1. congruence. }
  destruct (decide (ZCARD (data s) key < limit)) as [Hlt|Hge].
  - rewrite bool_decide_eq_true_2 in Hd by done. subst r.
    apply allow_request_admitted in Hcall as [He _]; [|done].
    fold key in He. rewrite Hkept in He.
    assert (Hcard : ZCARD (data s1) key = ZCARD (data s) key + 1).
    { rewrite !ZCARD_entries, He.
      rewrite map_size_insert_None by (apply Hfresh; left). lia. }
    destruct (IH s1 Hup1 Hnd) as [Hres Hfin].
    + intros t' Ht'. rewrite He.
      rewrite lookup_insert_ne by (intros ->; done).
      apply Hfresh. by right.
    + intros t' m sc Ht'. rewrite He.
      rewrite lookup_insert_Some. intros [[_ <-]|[_ Hm]].
      * apply Hpair; [left | by right].
      * apply (Hin t' m sc); [by right | done].
    + intros t1 t2 H1 H2. apply Hpair; by right.
    + destruct (allow_requests s1 client_id endpoint limit window_ms rest)
        as [rs s2].
      simpl in *. rewrite Hcard in Hres, Hfin. rewrite Hres. split; [done|].
      rewrite Hfin. unfold admitted. rewrite filter_cons_True by done.
      simpl. lia.
  - rewrite bool_decide_eq_false_2 in Hd by done. subst r.
    apply allow_request_denied in Hcall as [_ ->].
    assert (He : entries (ZREMRANGEBYSCORE (data s) key (t - window_ms)) key
                 = entries (data s) key)
      by (by rewrite entries_ZREMRANGEBYSCORE).
    assert (Hcard : ZCARD (ZREMRANGEBYSCORE (data s) key (t - window_ms)) key
                    = ZCARD (data s) key)
      by (by rewrite !ZCARD_entries, He).
    destruct (IH (Server true (ZREMRANGEBYSCORE (data s) key
                                 (t - window_ms))) eq_refl Hnd)
      as [Hres Hfin].
    + intros t' Ht'. simpl. rewrite He. apply Hfresh. by right.
    + intros t' m sc Ht'. simpl. rewrite He. intros Hm.
      apply (Hin t' m sc); [by right | done].
    + intros t1 t2 H1 H2. apply Hpair; by right.
    + destruct (allow_requests _ client_id endpoint limit window_ms rest)
        as [rs s2].
      simpl in *. rewrite Hcard in Hres, Hfin. rewrite Hres. split; [done|].
      rewrite Hfin. unfold admitted. rewrite filter_cons_False by done.
      done.
Qed.

(** X8: from an empty window, [limit] calls at distinct milliseconds of one
    window are admitted and the next one is denied. *)
Corollary distinct_calls_next_denied client_id endpoint window_ms nows n :
  0 < window_ms → NoDup nows → length nows = S n →
  (∀ t t', t ∈ nows → t' ∈ nows → t' - window_ms < t) →
  (allow_requests empty_server client_id endpoint (Z.of_nat n)
     window_ms nows).1
  = replicate n (Return true) ++ [Return false].
Proof.
  intros Hw Hnd Hlen Hpair.
  destruct (distinct_run empty_server client_id endpoint (Z.of_nat n)
              window_ms nows) as [Hres _]; try done.
  assert (Hzero : ZCARD (data empty_server) (rate_key client_id endpoint) = 0).
  { unfold ZCARD. simpl. by rewrite lookup_empty. }
  rewrite Hres, Hlen, Hzero.
  rewrite admissions_one_more by lia.
  by rewrite fmap_app, fmap_replicate.
Qed.

(** X9: from an empty window, after [m ≤ limit] calls at distinct
    milliseconds of one window, all are admitted and the usage reported is
    [m]. *)
Corollary distinct_calls_usage client_id endpoint limit window_ms nows :
  0 < window_ms → NoDup nows → Z.of_nat (length nows) ≤ limit →
  (∀ t t', t ∈ nows → t' ∈ nows → t' - window_ms < t) →
  let run := allow_requests empty_server client_id endpoint limit
               window_ms nows in
  run.1 = replicate (length nows) (Return true)
  ∧ get_current_usage run.2 client_id endpoint
    = (Return (Z.of_nat (length nows)), run.2).
Proof.
  intros Hw Hnd Hlen Hpair run. subst run.
  destruct (distinct_run empty_server client_id endpoint limit
              window_ms nows) as [Hres Hfin]; try done.
  assert (Hzero : ZCARD (data empty_server) (rate_key client_id endpoint) = 0).
  { unfold ZCARD. simpl. by rewrite lookup_empty. }
  rewrite Hzero in Hres, Hfin.
  rewrite admissions_below in Hres, Hfin by lia.
  rewrite admitted_replicate_true in Hfin.
  rewrite fmap_replicate in Hres. split; [done|].
  unfold get_current_usage.
  assert (Hup : up (allow_requests empty_server client_id endpoint limit
                      window_ms nows).2 = true).
  { clear. generalize empty_server (eq_refl : up empty_server = true).
    induction nows as [|t rest IH]; intros s Hs; [done|].
    simpl.
    pose proof (allow_request_keeps_up s client_id endpoint limit
                  window_ms t) as H1.
    destruct (allow_request s client_id endpoint limit window_ms t)
      as [r s1].
    specialize (IH s1). simpl in H1.
    destruct (allow_requests s1 client_id endpoint limit window_ms rest)
      as [rs s2].
    simpl in *. apply IH. congruence. }
  rewrite Hup. rewrite Hfin. f_equal.
Qed.

End DistinctMilliseconds.


(** ** Further properties of the limiter *)

Section Limiter.
Implicit Types (s : server) (db : gmap string zkey) (zs : gmap Z Z).

Lemma kept_none max zs :
  (∀ m sc, zs !! m = Some sc → sc ≤ max) → kept max zs = ∅.
Proof.
  intros Hall. apply map_empty. intros m.
  destruct (kept max zs !! m) as [sc|] eqn:Hm; [|done].
  apply lookup_kept in Hm as [Hm Hlt]. specialize (Hall m sc Hm). exfalso. lia.
Qed.

Lemma kept_kept max max' zs :
  max ≤ max' → kept max' (kept max zs) = kept max' zs.
Proof.
  intros Hle. apply map_eq. intros m. apply option_eq. intros sc.
  rewrite !lookup_kept. intuition lia.
Qed.

Lemma kept_size_mono max max' zs :
  max ≤ max' → (size (kept max' zs) ≤ size (kept max zs))%nat.
Proof. intros Hle. rewrite <- (kept_kept max max' zs Hle). apply kept_size. Qed.

Lemma size_upsert zs m sc : (size (<[m := sc]> zs) ≤ S (size zs))%nat.
Proof. rewrite map_size_insert. destruct (zs !! m); simpl; lia. Qed.

Lemma ZREMRANGEBYSCORE_idemp db key max :
  ZREMRANGEBYSCORE (ZREMRANGEBYSCORE db key max) key max
  = ZREMRANGEBYSCORE db key max.
Proof.
  destruct (db !! key) as [v|] eqn:Hk.
  - assert (Hr : ZREMRANGEBYSCORE db key max =
                 if decide (kept max (members v) = ∅) then delete key db
                 else <[key := ZKey (kept max (members v)) (ttl v)]> db)
      by (unfold ZREMRANGEBYSCORE; by rewrite Hk).
    rewrite Hr. case_decide as He; unfold ZREMRANGEBYSCORE.
    + by rewrite lookup_delete_eq.
    + rewrite lookup_insert_eq. simpl. rewrite kept_idemp.
      rewrite decide_False by done. by rewrite insert_insert_eq.
  - assert (Hr : ZREMRANGEBYSCORE db key max = db)
      by (unfold ZREMRANGEBYSCORE; by rewrite Hk).
    by rewrite !Hr.
Qed.

(** One call, whatever its outcome: the entries under its key afterwards. *)
Lemma allow_request_entries s client_id endpoint limit window_ms now_ms :
  let key := rate_key client_id endpoint in
  let call := allow_request s client_id endpoint limit window_ms now_ms in
  let rest := kept (now_ms - window_ms) (entries (data s) key) in
  (call.1 = Raise BackendUnavailable ∧ call.2 = s)
  ∨ (call.1 = Return false ∧ entries (data call.2) key = rest)
  ∨ (call.1 = Return true ∧ Z.of_nat (size rest) < limit
     ∧ (entries (data call.2) key = <[now_ms := now_ms]> rest
        ∨ entries (data call.2) key = ∅)).
Proof.
  intros key call rest. subst call.
  destruct (up s) eqn:Hup.
  - right.
    pose proof (allow_request_decision s client_id endpoint limit
                  window_ms now_ms Hup) as Hd.
    destruct (allow_request s client_id endpoint limit window_ms now_ms)
      as [r s'] eqn:Hcall.
    simpl in Hd. subst r. fold key rest in Hcall |- *.
    case_bool_decide as Hlt.
    + right. split; [done|]. split; [done|].
      destruct (decide (0 < window_ms)) as [Hw|Hw].
      * left. by apply allow_request_admitted in Hcall as [He _].
      * right. rewrite allow_request_up in Hcall by done.
        simpl in Hcall. injection Hcall as _ <-.
        pose proof (script_allowed_nonpos_window (data s)
                      (rate_key client_id endpoint) now_ms window_ms limit
                      ltac:(lia) Hlt) as Hnone.
        unfold entries, key. simpl. by rewrite Hnone.
    + left. split; [done|].
      apply allow_request_denied in Hcall as [_ ->]. simpl.
      apply entries_ZREMRANGEBYSCORE.
  - left. by rewrite allow_request_down.
Qed.

End Limiter.

Section LimiterRuns.
Implicit Types (s : server) (nows : list Z).

(** The stored count after one call: at most one more than before, and
    only when the call was admitted, in which case it is within the limit. *)
Lemma allow_request_count s client_id endpoint limit window_ms now_ms :
  let key := rate_key client_id endpoint in
  let call := allow_request s client_id endpoint limit window_ms now_ms in
  (call.1 = Return true ∧ ZCARD (data call.2) key ≤ ZCARD (data s) key + 1
   ∧ ZCARD (data call.2) key ≤ limit)
  ∨ (call.1 ≠ Return true ∧ ZCARD (data call.2) key ≤ ZCARD (data s) key).
Proof.
  intros key call. subst key call.
  pose proof (kept_size (now_ms - window_ms)
                (entries (data s) (rate_key client_id endpoint))) as Hk.
  destruct (allow_request_entries s client_id endpoint limit window_ms now_ms)
    as [[Hr Hs]|[[Hr He]|(Hr & Hlt & [He|He])]].
  - right. rewrite Hr, Hs. split; [done|lia].
  - right. rewrite Hr. split; [done|]. rewrite !ZCARD_entries, He. lia.
  - left. split; [done|]. rewrite !ZCARD_entries, He.
    pose proof (size_upsert (kept (now_ms - window_ms)
                  (entries (data s) (rate_key client_id endpoint)))
                  now_ms now_ms).
    lia.
  - left. split; [done|]. rewrite !ZCARD_entries, He, map_size_empty. lia.
Qed.

End LimiterRuns.

(** Every state a run of calls under one limit reaches is well formed and
    holds, under the key of the run, no more entries than that limit. *)
Lemma run_within_limit
    (s : server) (client_id endpoint : string) (limit window_ms : Z)
    (nows : list Z) :
  wf (data s) →
  ZCARD (data s) (rate_key client_id endpoint) ≤ limit →
  let s1 := (allow_requests s client_id endpoint limit window_ms nows).2 in
  wf (data s1) ∧ ZCARD (data s1) (rate_key client_id endpoint) ≤ limit.
Proof.
  revert s. induction nows as [|t rest IH]; intros s Hwf Hle; [done|].
  simpl.
  pose proof (allow_request_wf s client_id endpoint limit window_ms t Hwf)
    as Hwf1.
  pose proof (allow_request_count s client_id endpoint limit window_ms t)
    as Hstep.
  destruct (allow_request s client_id endpoint limit window_ms t) as [r s1].
  simpl in Hwf1, Hstep.
  assert (Hle1 : ZCARD (data s1) (rate_key client_id endpoint) ≤ limit)
    by (destruct Hstep as [(_ & _ & ?)|[_ ?]]; lia).
  specialize (IH s1 Hwf1 Hle1).
  by destruct (allow_requests s1 client_id endpoint limit window_ms rest)
    as [rs s2].
Qed.

(** In a state reached from the empty store by calls under one limit, with
    whatever clock values, a denied call under that limit changes nothing. *)
Lemma denied_after_run_changes_nothing
    (client_id endpoint : string) (limit window_ms window_ms' now_ms : Z)
    (nows : list Z) (s' : server) :
  0 ≤ limit →
  let s := (allow_requests empty_server client_id endpoint limit
              window_ms nows).2 in
  allow_request s client_id endpoint limit window_ms' now_ms
    = (Return false, s') →
  s' = s.
Proof.
  intros Hl s Hcall.
  destruct (run_within_limit empty_server client_id endpoint limit
              window_ms nows) as [Hwf Hle].
  - apply wf_empty.
  - unfold ZCARD. simpl. by rewrite lookup_empty.
  - by apply (denied_within_limit s s' client_id endpoint limit
                window_ms' now_ms).
Qed.

(** X1: once every stored entry of a key has left the window (score at most
    [now - window_ms]), a call with a limit of at least 1 is admitted, the
    key holds the entry of that call alone, and the usage reported is 1. *)
Theorem window_recovers
    (s : server) (client_id endpoint : string) (limit window_ms now_ms : Z) :
  up s = true → 0 < window_ms → 1 ≤ limit →
  (∀ m sc, entries (data s) (rate_key client_id endpoint) !! m = Some sc →
           sc ≤ now_ms - window_ms) →
  let call := allow_request s client_id endpoint limit window_ms now_ms in
  call.1 = Return true
  ∧ entries (data call.2) (rate_key client_id endpoint) = {[now_ms := now_ms]}
  ∧ get_current_usage call.2 client_id endpoint = (Return 1, call.2).
Proof.
  intros Hup Hw Hl Hold call. subst call.
  pose proof (kept_none _ _ Hold) as Hnone.
  pose proof (allow_request_decision s client_id endpoint limit
                window_ms now_ms Hup) as Hd.
  rewrite Hnone, map_size_empty in Hd.
  rewrite bool_decide_eq_true_2 in Hd by lia.
  pose proof (allow_request_keeps_up s client_id endpoint limit
                window_ms now_ms) as Hup'.
  destruct (allow_request s client_id endpoint limit window_ms now_ms)
    as [r s'] eqn:Hcall.
  simpl in *. subst r.
  apply allow_request_admitted in Hcall as [He _]; [|done].
  rewrite Hnone, insert_empty in He.
  split; [done|]. split; [done|].
  unfold get_current_usage. rewrite Hup', Hup.
  by rewrite ZCARD_entries, He, map_size_singleton.
Qed.

Lemma window_recovers_witness :
  let call := allow_request two_admitted "u" "/r" 2 1000 1900 in
  call.1 = Return true
  ∧ get_current_usage call.2 "u" "/r" = (Return 1, call.2).
Proof.
  destruct (window_recovers two_admitted "u" "/r" 2 1000 1900)
    as (Hr & _ & Hu).
  - reflexivity.
  - lia.
  - lia.
  - intros m sc. assert (He : entries (data two_admitted) (rate_key "u" "/r")
                              = <[900 := 900]> {[0 := 0]}) by (by vm_compute).
    rewrite He, lookup_insert_Some, lookup_singleton_Some. lia.
  - split; [exact Hr | exact Hu].
Defined.

(** X2: under one limit, the number of entries stored for a key never
    exceeds that limit: if it is within the limit before a run of calls, it
    is within the limit after it, whatever the clock values and the window. *)
Theorem stored_count_never_exceeds_limit
    (s : server) (client_id endpoint : string) (limit window_ms : Z)
    (nows : list Z) :
  ZCARD (data s) (rate_key client_id endpoint) ≤ limit →
  ZCARD (data (allow_requests s client_id endpoint limit window_ms nows).2)
    (rate_key client_id endpoint) ≤ limit.
Proof.
  revert s. induction nows as [|t rest IH]; intros s Hle; [done|].
  simpl.
  pose proof (allow_request_count s client_id endpoint limit window_ms t)
    as Hstep.
  destruct (allow_request s client_id endpoint limit window_ms t) as [r s1].
  specialize (IH s1).
  destruct (allow_requests s1 client_id endpoint limit window_ms rest)
    as [rs s2].
  simpl in *. apply IH. destruct Hstep as [(_ & _ & ?)|[_ ?]]; lia.
Qed.

Lemma stored_count_never_exceeds_limit_witness :
  ZCARD (data (allow_requests empty_server "u" "/r" 2 1000
                 [5; 5; 6; 7; 2000]).2) (rate_key "u" "/r") ≤ 2.
Proof.
  apply (stored_count_never_exceeds_limit empty_server "u" "/r" 2 1000).
  by vm_compute.
Defined.


(** X4: a denied call repeated at the same clock value is denied again and
    changes nothing: the state it leaves is the state it found. *)
Theorem denied_retry_changes_nothing
    (s s' : server) (client_id endpoint : string) (limit window_ms now_ms : Z) :
  allow_request s client_id endpoint limit window_ms now_ms = (Return false, s') →
  allow_request s' client_id endpoint limit window_ms now_ms = (Return false, s').
Proof.
  intros Hcall.
  assert (Hge : limit ≤ Z.of_nat (size (kept (now_ms - window_ms)
                  (entries (data s) (rate_key client_id endpoint))))).
  { destruct (up s) eqn:Hup.
    - pose proof (allow_request_decision s client_id endpoint limit
                    window_ms now_ms Hup) as Hd.
      rewrite Hcall in Hd. simpl in Hd. injection Hd as Hd.
      symmetry in Hd. apply bool_decide_eq_false in Hd. lia.
    - rewrite allow_request_down in Hcall by done. congruence. }
  apply allow_request_denied in Hcall as [Hup ->].
  rewrite allow_request_up by done. simpl.
  rewrite script_denied.
  - simpl. by rewrite ZREMRANGEBYSCORE_idemp.
  - by rewrite entries_ZREMRANGEBYSCORE, kept_idemp.
Qed.

Lemma denied_retry_changes_nothing_witness :
  let s' := (allow_request two_admitted "u" "/r" 2 1000 950).2 in
  allow_request s' "u" "/r" 2 1000 950 = (Return false, s').
Proof.
  apply (denied_retry_changes_nothing two_admitted _ "u" "/r" 2 1000 950).
  by vm_compute.
Defined.

(** X5: waiting never turns an admission into a denial.  From one state and
    under one configuration, a call that would be admitted at [now_ms] would
    be admitted at any later clock value too. *)
Theorem admission_monotone_in_time
    (s : server) (client_id endpoint : string)
    (limit window_ms now_ms later_ms : Z) :
  now_ms ≤ later_ms →
  (allow_request s client_id endpoint limit window_ms now_ms).1 = Return true →
  (allow_request s client_id endpoint limit window_ms later_ms).1 = Return true.
Proof.
  intros Hle Hadm.
  destruct (up s) eqn:Hup.
  - rewrite allow_request_decision in Hadm |- * by done.
    injection Hadm as Hadm. apply bool_decide_eq_true in Hadm.
    pose proof (kept_size_mono (now_ms - window_ms) (later_ms - window_ms)
                  (entries (data s) (rate_key client_id endpoint))
                  ltac:(lia)) as Hmono.
    f_equal. apply bool_decide_eq_true. lia.
  - rewrite allow_request_down in Hadm by done. discriminate Hadm.
Qed.

Lemma admission_monotone_in_time_witness :
  (allow_request two_admitted "u" "/r" 2 1000 3000).1 = Return true.
Proof.
  apply (admission_monotone_in_time two_admitted "u" "/r" 2 1000 1000 3000).
  - lia.
  - by vm_compute.
Defined.

(** X7: the limiter stores nothing but the clock values of its calls.  After
    a run of calls, every entry of the key either was stored before the run
    with the same score, or has a clock value of the run as both its member
    and its score. *)
Theorem stored_entries_are_call_times
    (s : server) (client_id endpoint : string) (limit window_ms : Z)
    (nows : list Z) (m sc : Z) :
  entries (data (allow_requests s client_id endpoint limit window_ms nows).2)
    (rate_key client_id endpoint) !! m = Some sc →
  entries (data s) (rate_key client_id endpoint) !! m = Some sc
  ∨ (m = sc ∧ m ∈ nows).
Proof.
  revert s. induction nows as [|t rest IH]; intros s; [by left|].
  simpl.
  pose proof (allow_request_entries s client_id endpoint limit window_ms t)
    as Hstep.
  destruct (allow_request s client_id endpoint limit window_ms t) as [r s1].
  specialize (IH s1).
  destruct (allow_requests s1 client_id endpoint limit window_ms rest)
    as [rs s2].
  simpl in *. intros Hm.
  destruct (IH Hm) as [Hs1|[-> Hin]]; [|right; split; [done|by right]].
  destruct Hstep as [[_ ->]|[[_ He]|(_ & _ & [He|He])]].
  - by left.
  - rewrite He in Hs1. apply lookup_kept in Hs1 as [? _]. by left.
  - rewrite He in Hs1. apply lookup_insert_Some in Hs1 as [[<- <-]|[_ Hk]].
    + right. split; [done|by left].
    + apply lookup_kept in Hk as [? _]. by left.
  - rewrite He in Hs1. by rewrite lookup_empty in Hs1.
Qed.

Lemma stored_entries_are_call_times_witness :
  entries (data empty_server) (rate_key "u" "/r") !! 900 = Some 900
  ∨ (900 = 900 ∧ 900 ∈ [0; 900]).
Proof.
  apply (stored_entries_are_call_times empty_server "u" "/r" 2 1000 [0; 900]).
  by vm_compute.
Defined.

Lemma distinct_calls_next_denied_witness :
  (allow_requests empty_server "u" "/r" (Z.of_nat 2) 1000 [5; 6; 7]).1
  = [Return true; Return true; Return false].
Proof.
  apply (distinct_calls_next_denied "u" "/r" 1000 [5; 6; 7] 2).
  - lia.
  - apply (bool_decide_unpack _). by vm_compute.
  - reflexivity.
  - intros t t' Ht Ht'.
    assert (5 ≤ t ≤ 7) by (set_unfold; lia).
    assert (5 ≤ t' ≤ 7) by (set_unfold; lia). lia.
Defined.

Lemma distinct_calls_usage_witness :
  let run := allow_requests empty_server "u" "/r" 3 1000 [5; 6] in
  run.1 = [Return true; Return true]
  ∧ get_current_usage run.2 "u" "/r" = (Return 2, run.2).
Proof.
  apply (distinct_calls_usage "u" "/r" 3 1000 [5; 6]).
  - lia.
  - apply (bool_decide_unpack _). by vm_compute.
  - simpl. lia.
  - intros t t' Ht Ht'.
    assert (5 ≤ t ≤ 6) by (set_unfold; lia).
    assert (5 ≤ t' ≤ 6) by (set_unfold; lia). lia.
Defined.

(** ** The middleware of [main.py] *)

(** X10: the identity [get_client_id] derives tells the credential it was
    derived from: two requests with one identity either both carry the same
    non-empty API key, or both carry no usable API key and come from the same
    client address.  An identity made from an API key never equals one made
    from an address. *)
Theorem client_id_identifies_credential (r1 r2 : request) (c : string) :
  get_client_id r1 = Done c → get_client_id r2 = Done c →
  (∃ k, k ≠ "" ∧ api_key r1 = Some k ∧ api_key r2 = Some k
        ∧ c = "key:" +:+ k)
  ∨ (∃ h, client r1 = Some h ∧ client r2 = Some h ∧ c = "ip:" +:+ h
          ∧ (api_key r1 = None ∨ api_key r1 = Some "")
          ∧ (api_key r2 = None ∨ api_key r2 = Some "")).
Proof.
  unfold get_client_id. intros H1 H2.
  assert (Hkey : ∀ k h : string, "key:" +:+ k ≠ "ip:" +:+ h).
  { intros k h Heq. rewrite !append_cons in Heq. discriminate Heq. }
  assert (Hinj : ∀ (p a b : string), p +:+ a = p +:+ b → a = b).
  { intros p a b. induction p as [|ch p IH]; rewrite ?append_nil, ?append_cons.
    - done.
    - intros [= Heq]. by apply IH. }
  destruct (api_key r1) as [k1|] eqn:Hk1, (api_key r2) as [k2|] eqn:Hk2;
    repeat case_decide; subst;
    destruct (client r1) as [h1|] eqn:Hc1, (client r2) as [h2|] eqn:Hc2;
    simplify_eq;
    try (match goal with
         | H : "key:" +:+ _ = "ip:" +:+ _ |- _ => by destruct (Hkey _ _ H)
         | H : "ip:" +:+ _ = "key:" +:+ _ |- _ =>
             symmetry in H; by destruct (Hkey _ _ H)
         end);
    try (match goal with
         | H : "key:" +:+ _ = "key:" +:+ _ |- _ => apply Hinj in H; subst
         | H : "ip:" +:+ _ = "ip:" +:+ _ |- _ => apply Hinj in H; subst
         end);
    first [ left; eexists; by eauto 10 | right; eexists; by eauto 10 ].
Qed.

Lemma client_id_identifies_credential_witness :
  (∃ k, k ≠ "" ∧ Some "abc" = Some k ∧ Some "abc" = Some k
        ∧ "key:abc" = "key:" +:+ k)
  ∨ (∃ h, Some "10.0.0.1" = Some h ∧ None = Some h ∧ "key:abc" = "ip:" +:+ h
          ∧ (Some "abc" = None ∨ Some "abc" = Some "")
          ∧ (Some "abc" = None ∨ Some "abc" = Some "")).
Proof.
  apply (client_id_identifies_credential
           (Request "/a" (Some "abc") (Some "10.0.0.1"))
           (Request "/b" (Some "abc") None) "key:abc"); reflexivity.
Defined.

Section MiddlewareFacts.
Context {response : Type}.
Variable call_next : request → response.
Variable JSONResponse : Z → list (string * string) → response.
Variable set_header : response → string → string → response.

Local Abbreviation middleware :=
  (rate_limit_middleware call_next JSONResponse set_header).
Local Abbreviation serving := (serve call_next JSONResponse set_header).

Implicit Types (w : world) (r : request) (c u : bool).

Lemma world_eta w : World (limiter w) (log w) (forwarded w) = w.
Proof. by destruct w. Qed.

(** The store after one request: untouched, or what the one admission check
    of the request left; the usage query never changes it. *)
Lemma middleware_data w r now_ms c u :
  data (limiter (middleware w r now_ms c u).2) = data (limiter w)
  ∨ ∃ client_id,
      get_client_id r = Done client_id ∧ path r ≠ "/health" ∧
      data (limiter (middleware w r now_ms c u).2)
      = data (allow_request (Server c (data (limiter w))) client_id (path r)
                DEFAULT_LIMIT DEFAULT_WINDOW now_ms).2.
Proof.
  unfold rate_limit_middleware. case_decide as Hp; [by left|].
  destruct (get_client_id r) as [cid|f] eqn:Hid; [|by left].
  right. exists cid. split; [done|]. split; [done|].
  destruct (allow_request (Server c (data (limiter w))) cid (path r)
              DEFAULT_LIMIT DEFAULT_WINDOW now_ms) as [[[|]|e] s1];
    simpl; [|done|done].
  unfold get_current_usage. by destruct u.
Qed.

(** X11: a request over the limit is rejected without reaching the
    application.  On a server that answers, when the key of the request
    already holds 100 entries or more inside the window, the middleware
    answers with the 429 response, logs one violation, forwards nothing, and
    leaves in the store what the trim of the check left. *)
Theorem over_limit_request_rejected w r now_ms u client_id :
  path r ≠ "/health" →
  get_client_id r = Done client_id →
  DEFAULT_LIMIT ≤ Z.of_nat (size (kept (now_ms - DEFAULT_WINDOW)
     (entries (data (limiter w)) (rate_key client_id (path r))))) →
  rate_limit_middleware call_next JSONResponse set_header w r now_ms true u
  = (Done (JSONResponse 429
             [("detail", "Too many requests. Please retry later.")]),
     World (Server true (ZREMRANGEBYSCORE (data (limiter w))
                           (rate_key client_id (path r))
                           (now_ms - DEFAULT_WINDOW)))
           (log w ++ [(WARNING, "BLOCKED: " +:+ client_id
                                +:+ " exceeded quota on " +:+ path r)])
           (forwarded w)).
Proof.
  intros Hp Hid Hfull.
  unfold rate_limit_middleware. rewrite decide_False by done. rewrite Hid.
  rewrite allow_request_up by done. simpl.
  rewrite script_denied by done. done.
Qed.

(** What an admitted request leaves behind, whether or not the usage query
    that follows is answered: the entry of the request is stored, one
    [ALLOWED] record is logged and the request has been forwarded. *)
Lemma admitted_request_effects w r now_ms u client_id :
  path r ≠ "/health" →
  get_client_id r = Done client_id →
  Z.of_nat (size (kept (now_ms - DEFAULT_WINDOW)
     (entries (data (limiter w)) (rate_key client_id (path r)))))
    < DEFAULT_LIMIT →
  let w' := (middleware w r now_ms true u).2 in
  let usage := ZCARD (data (limiter w')) (rate_key client_id (path r)) in
  entries (data (limiter w')) (rate_key client_id (path r))
  = <[now_ms := now_ms]> (kept (now_ms - DEFAULT_WINDOW)
      (entries (data (limiter w)) (rate_key client_id (path r))))
  ∧ 1 ≤ usage ≤ 100
  ∧ (middleware w r now_ms true u).1
    = (if u
       then Done (set_header
                    (set_header (call_next r) "X-RateLimit-Limit" "100")
                    "X-RateLimit-Remaining" (pretty (100 - usage)))
       else Crashed (Propagated BackendUnavailable))
  ∧ log w' = log w ++ [(INFO, "ALLOWED: " +:+ client_id
                              +:+ " hit " +:+ path r)]
  ∧ forwarded w' = forwarded w ++ [r].
Proof.
  intros Hp Hid Hlt w' usage. subst w' usage.
  pose proof (allow_request_decision (Server true (data (limiter w)))
                client_id (path r) DEFAULT_LIMIT DEFAULT_WINDOW now_ms
                eq_refl) as Hd.
  simpl in Hd. rewrite bool_decide_eq_true_2 in Hd by done.
  unfold rate_limit_middleware. rewrite decide_False by done. rewrite Hid.
  destruct (allow_request (Server true (data (limiter w))) client_id (path r)
              DEFAULT_LIMIT DEFAULT_WINDOW now_ms) as [res s1] eqn:Hcall.
  simpl in Hd. subst res.
  apply allow_request_admitted in Hcall as [He _]; [|done].
  simpl in He.
  assert (Hrange : 1 ≤ ZCARD (data s1) (rate_key client_id (path r)) ≤ 100).
  { rewrite ZCARD_entries, He.
    pose proof (size_upsert (kept (now_ms - DEFAULT_WINDOW)
                  (entries (data (limiter w)) (rate_key client_id (path r))))
                  now_ms now_ms) as Hle.
    assert (Hne : size (<[now_ms := now_ms]> (kept (now_ms - DEFAULT_WINDOW)
                    (entries (data (limiter w))
                       (rate_key client_id (path r))))) ≠ 0%nat).
    { apply map_size_non_empty_iff, insert_non_empty. }
    unfold DEFAULT_LIMIT in Hlt. lia. }
  unfold get_current_usage. destruct u; simpl.
  - split; [done|]. split; [done|]. split; [|done].
    unfold DEFAULT_LIMIT. rewrite Z.max_r by lia. done.
  - done.
Qed.

(** X12: an admitted request is forwarded once, logged once, and answered
    with the application's response carrying the two quota headers.  The
    remaining quota written is exactly [100 - usage], where [usage] is the
    count stored after the admission; it lies between 0 and 99, so the
    clipping at 0 never acts. *)
Theorem admitted_request_headers w r now_ms client_id :
  path r ≠ "/health" →
  get_client_id r = Done client_id →
  Z.of_nat (size (kept (now_ms - DEFAULT_WINDOW)
     (entries (data (limiter w)) (rate_key client_id (path r)))))
    < DEFAULT_LIMIT →
  let w' :=
    (rate_limit_middleware call_next JSONResponse set_header
       w r now_ms true true).2 in
  let usage := ZCARD (data (limiter w')) (rate_key client_id (path r)) in
  1 ≤ usage ≤ 100
  ∧ (rate_limit_middleware call_next JSONResponse set_header
       w r now_ms true true).1
    = Done (set_header
              (set_header (call_next r) "X-RateLimit-Limit" "100")
              "X-RateLimit-Remaining" (pretty (100 - usage)))
  ∧ log w' = log w ++ [(INFO, "ALLOWED: " +:+ client_id
                              +:+ " hit " +:+ path r)]
  ∧ forwarded w' = forwarded w ++ [r].
Proof.
  intros Hp Hid Hlt w' usage. subst w' usage.
  by destruct (admitted_request_effects w r now_ms true client_id Hp Hid Hlt)
    as (_ & ? & ? & ? & ?).
Qed.


(** What one request does to the limiter and the log, and its outcome, do
    not depend on the requests forwarded so far. *)
Lemma middleware_ignores_forwarded w w0 r now_ms c u :
  limiter w = limiter w0 → log w = log w0 →
  (middleware w r now_ms c u).1 = (middleware w0 r now_ms c u).1
  ∧ limiter (middleware w r now_ms c u).2
    = limiter (middleware w0 r now_ms c u).2
  ∧ log (middleware w r now_ms c u).2 = log (middleware w0 r now_ms c u).2.
Proof.
  intros Hl Hg. unfold rate_limit_middleware. rewrite Hl, Hg.
  case_decide; [done|].
  destruct (get_client_id r) as [cid|f]; [|done].
  destruct (allow_request (Server c (data (limiter w0))) cid (path r)
              DEFAULT_LIMIT DEFAULT_WINDOW now_ms) as [[[|]|e] s1]; [|done|done].
  by destruct (get_current_usage (Server u (data s1)) cid (path r))
    as [[usage|e] s2].
Qed.

Lemma middleware_health w r now_ms c u :
  path r = "/health" →
  middleware w r now_ms c u
  = (Done (call_next r), World (limiter w) (log w) (forwarded w ++ [r])).
Proof.
  intros Hp. unfold rate_limit_middleware. by rewrite decide_True by done.
Qed.

(** X14: health checks are invisible to the limiter and to the log: a
    process that handles a list of requests ends with the same store and the
    same log records as if the [/health] requests had never been sent. *)
Theorem health_requests_do_not_matter w (reqs : list arrival) :
  let others := filter (λ a : arrival, path (req a) ≠ "/health") reqs in
  limiter (serve call_next JSONResponse set_header w reqs).2
  = limiter (serve call_next JSONResponse set_header w others).2
  ∧ log (serve call_next JSONResponse set_header w reqs).2
    = log (serve call_next JSONResponse set_header w others).2.
Proof.
  intros others. subst others.
  assert (Hgen : ∀ w w0, limiter w = limiter w0 → log w = log w0 →
    limiter (serving w reqs).2
      = limiter (serving w0
          (filter (λ a : arrival, path (req a) ≠ "/health") reqs)).2
    ∧ log (serving w reqs).2
      = log (serving w0
          (filter (λ a : arrival, path (req a) ≠ "/health") reqs)).2).
  { clear w. induction reqs as [|a rest IH]; intros w w0 Hl Hg; [done|].
    destruct (decide (path (req a) = "/health")) as [Hp|Hp].
    - rewrite filter_cons_False by (by intros ?).
      simpl. rewrite (middleware_health w (req a) _ _ _ Hp).
      destruct (serving (World (limiter w) (log w) (forwarded w ++ [req a]))
                  rest) as [os w2] eqn:Hrest.
      simpl. specialize (IH (World (limiter w) (log w)
                               (forwarded w ++ [req a])) w0 Hl Hg).
      by rewrite Hrest in IH.
    - rewrite filter_cons_True by done. simpl.
      destruct (middleware_ignores_forwarded w w0 (req a) (at_ms a)
                  (check_up a) (usage_up a) Hl Hg) as (_ & Hl1 & Hg1).
      destruct (middleware w (req a) (at_ms a) (check_up a) (usage_up a))
        as [o w1].
      destruct (middleware w0 (req a) (at_ms a) (check_up a) (usage_up a))
        as [o0 w01].
      specialize (IH w1 w01 Hl1 Hg1).
      destruct (serving w1 rest) as [os w2].
      destruct (serving w01 _) as [os0 w02].
      done. }
  by apply Hgen.
Qed.

(** X15: the middleware never lets a key grow beyond 100 entries: if every
    key of the store holds at most 100 entries, so does every key after any
    list of requests has been handled. *)
Theorem serve_keeps_keys_within_limit w (reqs : list arrival) :
  (∀ key, ZCARD (data (limiter w)) key ≤ 100) →
  ∀ key,
    ZCARD (data (limiter
             (serve call_next JSONResponse set_header w reqs).2)) key ≤ 100.
Proof.
  revert w. induction reqs as [|a rest IH]; intros w Hw key; [apply Hw|].
  simpl.
  assert (Hstep : ∀ k,
    ZCARD (data (limiter (middleware w (req a) (at_ms a)
                            (check_up a) (usage_up a)).2)) k ≤ 100).
  { intros k.
    destruct (middleware_data w (req a) (at_ms a) (check_up a) (usage_up a))
      as [->|(cid & _ & _ & ->)]; [apply Hw|].
    destruct (decide (rate_key cid (path (req a)) = k)) as [<-|Hne].
    - pose proof (allow_request_count (Server (check_up a) (data (limiter w)))
                    cid (path (req a)) DEFAULT_LIMIT DEFAULT_WINDOW (at_ms a))
        as Hc.
      specialize (Hw (rate_key cid (path (req a)))).
      pose proof (eq_refl : DEFAULT_LIMIT = 100) as Hlimit.
      cbv zeta in Hc.
      change (data (Server (check_up a) (data (limiter w))))
        with (data (limiter w)) in Hc.
      destruct Hc as [(_ & _ & ?)|[_ ?]]; lia.
    - unfold ZCARD. rewrite allow_request_other by done. apply Hw. }
  destruct (middleware w (req a) (at_ms a) (check_up a) (usage_up a))
    as [o w1].
  specialize (IH w1 Hstep key).
  by destruct (serving w1 rest) as [os w2].
Qed.

(** The answer to a request is decided by the entries stored under the key
    of the request, and by whether the server answers. *)
Lemma middleware_outcome_local w w0 r now_ms c u client_id :
  get_client_id r = Done client_id →
  entries (data (limiter w)) (rate_key client_id (path r))
  = entries (data (limiter w0)) (rate_key client_id (path r)) →
  (middleware w r now_ms c u).1 = (middleware w0 r now_ms c u).1.
Proof.
  intros Hid Hent.
  destruct (decide (path r = "/health")) as [Hp|Hp].
  { by rewrite !middleware_health. }
  destruct c.
  - destruct (decide (Z.of_nat (size (kept (now_ms - DEFAULT_WINDOW)
                (entries (data (limiter w0)) (rate_key client_id (path r)))))
              < DEFAULT_LIMIT)) as [Hlt|Hge].
    + destruct (admitted_request_effects w0 r now_ms u client_id Hp Hid Hlt)
        as (He0 & _ & Hout0 & _).
      rewrite <- Hent in Hlt.
      destruct (admitted_request_effects w r now_ms u client_id Hp Hid Hlt)
        as (He & _ & Hout & _).
      rewrite Hout, Hout0. rewrite !ZCARD_entries, He, He0. by rewrite Hent.
    + rewrite (over_limit_request_rejected w0 r now_ms u client_id Hp Hid)
        by lia.
      rewrite (over_limit_request_rejected w r now_ms u client_id Hp Hid)
        by (rewrite Hent; lia).
      done.
  - unfold rate_limit_middleware. rewrite decide_False by done. rewrite Hid.
    rewrite (allow_request_down (Server false (data (limiter w)))) by done.
    rewrite (allow_request_down (Server false (data (limiter w0)))) by done.
    by rewrite decide_False by done.
Qed.

(** X16: clients do not eat into each other's quota.  For two requests whose
    paths contain no [":"] and whose identities or paths differ, the answer
    to the second is the same whether or not the first was handled before
    it. *)
Theorem other_requests_do_not_change_the_answer
    w r1 r2 t1 t2 c1 u1 c2 u2 client_id1 client_id2 :
  has_colon (path r1) = false → has_colon (path r2) = false →
  get_client_id r1 = Done client_id1 → get_client_id r2 = Done client_id2 →
  client_id1 ≠ client_id2 ∨ path r1 ≠ path r2 →
  (rate_limit_middleware call_next JSONResponse set_header
     (rate_limit_middleware call_next JSONResponse set_header
        w r1 t1 c1 u1).2
     r2 t2 c2 u2).1
  = (rate_limit_middleware call_next JSONResponse set_header
       w r2 t2 c2 u2).1.
Proof.
  intros Hc1 Hc2 Hid1 Hid2 Hdiff.
  assert (Hkey : rate_key client_id1 (path r1) ≠ rate_key client_id2 (path r2)).
  { intros Heq. apply rate_key_inj in Heq as [-> Hp]; [|by right].
    by destruct Hdiff. }
  apply (middleware_outcome_local _ _ _ _ _ _ client_id2 Hid2).
  unfold entries.
  destruct (middleware_data w r1 t1 c1 u1) as [->|(cid & Hcid & _ & ->)];
    [done|].
  rewrite Hid1 in Hcid. injection Hcid as <-.
  by rewrite allow_request_other.
Qed.

End MiddlewareFacts.

Lemma over_limit_request_rejected_witness :
  (rate_limit_middleware plain_call_next plain_JSONResponse plain_set_header
     full_world (Request "/api/resource" (Some "k") None) 150 true true).1
  = Done (429, []).
Proof.
  rewrite (over_limit_request_rejected plain_call_next plain_JSONResponse
             plain_set_header full_world
             (Request "/api/resource" (Some "k") None) 150 true "key:k").
  - reflexivity.
  - by vm_compute.
  - reflexivity.
  - by vm_compute.
Defined.

Lemma admitted_request_headers_witness :
  (rate_limit_middleware plain_call_next plain_JSONResponse plain_set_header
     fresh_world (Request "/api/resource" (Some "k") None) 5 true true).1
  = Done (200, [("X-RateLimit-Remaining", "99"); ("X-RateLimit-Limit", "100")]).
Proof.
  destruct (admitted_request_headers plain_call_next plain_JSONResponse
              plain_set_header fresh_world
              (Request "/api/resource" (Some "k") None) 5 "key:k")
    as (_ & Hout & _).
  - by vm_compute.
  - reflexivity.
  - by vm_compute.
  - rewrite Hout. by vm_compute.
Defined.


Lemma serve_keeps_keys_within_limit_witness :
  ZCARD (data (limiter
    (serve plain_call_next plain_JSONResponse plain_set_header full_world
       [Arrival (Request "/api/resource" (Some "k") None) 150 true true;
        Arrival (Request "/health" None None) 151 false false;
        Arrival (Request "/api/resource" (Some "k") None) 60050 true false]).2))
    (rate_key "key:k" "/api/resource") ≤ 100.
Proof.
  apply (serve_keeps_keys_within_limit plain_call_next plain_JSONResponse
           plain_set_header full_world).
  intros key. unfold ZCARD, full_world. simpl.
  destruct (decide (rate_key "key:k" "/api/resource" = key)) as [<-|Hne].
  - rewrite lookup_singleton_eq. by vm_compute.
  - rewrite lookup_singleton_ne by done. lia.
Defined.

Lemma other_requests_do_not_change_the_answer_witness :
  (rate_limit_middleware plain_call_next plain_JSONResponse plain_set_header
     (rate_limit_middleware plain_call_next plain_JSONResponse
        plain_set_header full_world
        (Request "/api/resource" (Some "other") None) 150 true false).2
     (Request "/api/resource" (Some "k") None) 151 true true).1
  = Done (429, []).
Proof.
  rewrite (other_requests_do_not_change_the_answer plain_call_next
             plain_JSONResponse plain_set_header full_world
             (Request "/api/resource" (Some "other") None)
             (Request "/api/resource" (Some "k") None) 150 151
             true false true true "key:other" "key:k").
  - by vm_compute.
  - reflexivity.
  - reflexivity.
  - reflexivity.
  - reflexivity.
  - left. discriminate.
Defined.
